(** * tools/apply_patch.py: the patch applier

    A shallow embedding of [tools/apply_patch.py] and the properties its
    specification states.  The script reads a patch from standard input,
    stores it at a fixed path, and calls [git apply --check] and then
    [git apply] on that path.

    Layout of the development:
    - [Text]: Python [str] values, [str.strip], the UTF-8 codec that
      [write_text(..., encoding="utf-8")] selects;
    - [Runtime]: the world the script acts on and the monad its effects
      live in;
    - [ApplyPatch]: the two functions of the script, [run] and [main];
    - [Spec]: the flow of the script as its contract words it;
    - [Examples]: concrete worlds and external tools;
    - facts about text (the UTF-8 round trip, [strip]), facts about the
      script, and the theorems, one per property of the specification. *)

From Stdlib Require Import NArith ZArith String Ascii List Lia.
From stdpp Require Import gmap list fin_maps.

Import ListNotations.
Local Open Scope N_scope.

(** ** Text *)

Module Text.

(** A Python [str] is a sequence of code points; a [bytes] value is a
    sequence of octets. *)
Abbreviation codepoint := N (only parsing).
Abbreviation str := (list N) (only parsing).
Abbreviation byte := N (only parsing).
Abbreviation bytes := (list N) (only parsing).

(** A string literal of the source. *)
Definition lit (s : string) : str :=
  List.map N_of_ascii (list_ascii_of_string s).

(** The code points a [str] can hold, and those among them that an
    encoding can represent (the Unicode scalar values). *)
Definition is_surrogate (c : codepoint) : bool :=
  (0xD800 <=? c) && (c <=? 0xDFFF).

Definition scalar (c : codepoint) : Prop :=
  c <= 0x10FFFF /\ is_surrogate c = false.

(** [str.isspace] on one code point: the code points whose bidirectional
    class is WS, B or S, or whose category is Zs. *)
Definition isspace (c : codepoint) : bool :=
  ((0x09 <=? c) && (c <=? 0x0D))
  || ((0x1C <=? c) && (c <=? 0x20))
  || (c =? 0x85) || (c =? 0xA0) || (c =? 0x1680)
  || ((0x2000 <=? c) && (c <=? 0x200A))
  || (c =? 0x2028) || (c =? 0x2029) || (c =? 0x202F)
  || (c =? 0x205F) || (c =? 0x3000).

(** [s.lstrip()], [s.rstrip()] and [s.strip()] with no argument. *)
Fixpoint lstrip (s : str) : str :=
  match s with
  | [] => []
  | c :: r => if isspace c then lstrip r else s
  end.

Definition rstrip (s : str) : str := rev (lstrip (rev s)).

Definition strip (s : str) : str := rstrip (lstrip s).

(** Truth value of a [str]: only the empty string is false. *)
Definition truthy (s : str) : bool :=
  match s with [] => false | _ :: _ => true end.


(** *** UTF-8, strict error handler *)

(** A continuation octet carrying six bits. *)
Definition cont (x : N) : byte := N.lor 0x80 (N.land x 0x3F).

Definition is_cont (b : byte) : bool := N.land b 0xC0 =? 0x80.

(** The octets of one code point; [None] is [UnicodeEncodeError]
    (a surrogate, which the strict handler refuses). *)
Definition encode_cp (c : codepoint) : option bytes :=
  if c <? 0x80 then Some [c]
  else if c <? 0x800 then
    Some [N.lor 0xC0 (N.shiftr c 6); cont c]
  else if is_surrogate c then None
  else if c <? 0x10000 then
    Some [N.lor 0xE0 (N.shiftr c 12); cont (N.shiftr c 6); cont c]
  else if c <=? 0x10FFFF then
    Some [N.lor 0xF0 (N.shiftr c 18); cont (N.shiftr c 12);
          cont (N.shiftr c 6); cont c]
  else None.

(** [s.encode("utf-8")]. *)
Fixpoint utf8_encode (s : str) : option bytes :=
  match s with
  | [] => Some []
  | c :: r =>
      match encode_cp c, utf8_encode r with
      | Some bs, Some rest => Some (bs ++ rest)
      | _, _ => None
      end
  end.

(** The payload bits of a continuation octet. *)
Definition low6 (b : byte) : N := N.land b 0x3F.

Definition join (hi lo : N) : N := N.lor (N.shiftl hi 6) lo.

(** [b.decode("utf-8")]; [None] is [UnicodeDecodeError].  Overlong
    forms, surrogates and values above U+10FFFF are refused. *)
Fixpoint utf8_decode (bs : bytes) : option str :=
  match bs with
  | [] => Some []
  | b0 :: r0 =>
      if b0 <? 0x80 then cons b0 <$> utf8_decode r0
      else if b0 <? 0xC0 then None
      else if b0 <? 0xE0 then
        match r0 with
        | b1 :: r1 =>
            let c := join (N.land b0 0x1F) (low6 b1) in
            if is_cont b1 && (0x80 <=? c)
            then cons c <$> utf8_decode r1 else None
        | _ => None
        end
      else if b0 <? 0xF0 then
        match r0 with
        | b1 :: b2 :: r2 =>
            let c := join (join (N.land b0 0x0F) (low6 b1)) (low6 b2) in
            if is_cont b1 && is_cont b2 && (0x800 <=? c)
               && negb (is_surrogate c)
            then cons c <$> utf8_decode r2 else None
        | _ => None
        end
      else if b0 <? 0xF8 then
        match r0 with
        | b1 :: b2 :: b3 :: r3 =>
            let c := join (join (join (N.land b0 0x07) (low6 b1))
                                (low6 b2)) (low6 b3) in
            if is_cont b1 && is_cont b2 && is_cont b3
               && (0x10000 <=? c) && (c <=? 0x10FFFF)
            then cons c <$> utf8_decode r3 else None
        | _ => None
        end
      else None
  end.

End Text.

(** ** Runtime *)

Module Runtime.
Import Text.

(** What [subprocess.run(cmd, text=True, capture_output=True)] returns. *)
Record CompletedProcess := {
  returncode : Z;
  stdout : str;
  stderr : str
}.

(** The steps the script takes, in the order it takes them: reading
    standard input, writing a text to a path, and running a command to
    completion with the result it came back with. *)
Inductive Event :=
| Read
| Write (path : str) (text : str)
| Run (cmd : list str) (p : CompletedProcess).

(** The part of the machine the script can observe or change: its three
    standard streams, the file system, and the record of its steps. *)
Record World := {
  sys_stdin : str;
  sys_stdout : str;
  sys_stderr : str;
  files : gmap (list N) (list N);
  trace : list Event
}.

Definition set_stdin (v : str) (w : World) : World :=
  {| sys_stdin := v; sys_stdout := sys_stdout w; sys_stderr := sys_stderr w;
     files := files w; trace := trace w |}.

Definition set_stdout (v : str) (w : World) : World :=
  {| sys_stdin := sys_stdin w; sys_stdout := v; sys_stderr := sys_stderr w;
     files := files w; trace := trace w |}.

Definition set_stderr (v : str) (w : World) : World :=
  {| sys_stdin := sys_stdin w; sys_stdout := sys_stdout w; sys_stderr := v;
     files := files w; trace := trace w |}.

Definition set_files (v : gmap (list N) (list N)) (w : World) : World :=
  {| sys_stdin := sys_stdin w; sys_stdout := sys_stdout w;
     sys_stderr := sys_stderr w; files := v; trace := trace w |}.

Definition record (e : Event) (w : World) : World :=
  {| sys_stdin := sys_stdin w; sys_stdout := sys_stdout w;
     sys_stderr := sys_stderr w; files := files w;
     trace := trace w ++ [e] |}.

Inductive Exn := UnicodeEncodeError.

(** How a computation ends: with a value, with [SystemExit(code)], or with
    an exception nobody catches. *)
Inductive Outcome (A : Type) :=
| Return (a : A)
| SystemExit (code : Z)
| Raise (e : Exn).
Arguments Return {A} a.
Arguments SystemExit {A} code.
Arguments Raise {A} e.

Definition Py (A : Type) : Type := World -> Outcome A * World.

Definition ret {A} (a : A) : Py A := fun w => (Return a, w).

(** Sequencing: the second computation runs only when the first one
    returned. *)
Definition bind {A B} (k : A -> Py B) (m : Py A) : Py B :=
  fun w =>
    match m w with
    | (Return a, w') => k a w'
    | (SystemExit c, w') => (SystemExit c, w')
    | (Raise e, w') => (Raise e, w')
    end.

#[global] Instance Py_ret : MRet Py := @ret.
#[global] Instance Py_bind : MBind Py := @bind.

(** [sys.exit(code)] and an uncaught [raise]. *)
Definition sys_exit {A} (code : Z) : Py A := fun w => (SystemExit code, w).
Definition raise {A} (e : Exn) : Py A := fun w => (Raise e, w).

(** [if cond: body] with no [else]. *)
Definition when (cond : bool) (body : Py unit) : Py unit :=
  if cond then body else ret tt.

(** [sys.stdin.read()]: everything up to end of stream. *)
Definition stdin_read : Py str :=
  fun w => (Return (sys_stdin w), record Read (set_stdin [] w)).

(** [sys.stderr.write(s)]. *)
Definition stderr_write (s : str) : Py unit :=
  fun w => (Return tt, set_stderr (sys_stderr w ++ s) w).

Definition stdout_write (s : str) : Py unit :=
  fun w => (Return tt, set_stdout (sys_stdout w ++ s) w).

(** [print(s)] and [print(s, file=sys.stderr)]: the text and a newline. *)
Definition newline : str := [0x0A].
Definition print (s : str) : Py unit := stdout_write (s ++ newline).
Definition print_err (s : str) : Py unit := stderr_write (s ++ newline).

(** [pathlib.Path]: the literal the script passes has no redundant
    separators or dots, so [str(Path(s))] gives [s] back. *)
Record Path := MkPath { path_str : str }.

(** [path.write_text(data, encoding="utf-8")] on a POSIX system: the file
    is opened for writing, which creates or empties it, and then receives
    the octets of [data]; a [data] that does not encode leaves it empty. *)
Definition write_text (path : Path) (data : str) : Py unit :=
  fun w =>
    let w1 := record (Write (path_str path) data) w in
    match utf8_encode data with
    | Some bs => (Return tt, set_files (<[path_str path := bs]> (files w1)) w1)
    | None =>
        (Raise UnicodeEncodeError,
         set_files (<[path_str path := []]> (files w1)) w1)
    end.

(** [path.read_bytes().decode("utf-8")]: what a reader of the file gets
    back; [None] when the file is missing or is not UTF-8. *)
Definition read_back (path : Path) (w : World) : option str :=
  files w !! path_str path ≫= utf8_decode.

(** The steps taken between the world [w] and the later world [w']. *)
Definition steps (w w' : World) : list Event :=
  drop (length (trace w)) (trace w').

(** The exit code of a script as Python states it: 0 when it ran to its
    end, the argument of [sys.exit] ([SystemExit.code]), 1 after a
    traceback. *)
Definition exit_status {A} (o : Outcome A) : Z :=
  match o with
  | Return _ => 0%Z
  | SystemExit c => c
  | Raise _ => 1%Z
  end.

(** The status the process ends with, as its parent reads it: the low
    eight bits of the exit code, so [sys.exit(-9)] ends with 247. *)
Definition process_status {A} (o : Outcome A) : Z :=
  (exit_status o mod 256)%Z.

Section External.

(** The programs the script starts are outside it: [exec cmd fs] is what
    running [cmd] to completion on the file system [fs] yields. *)
Variable exec : list str -> gmap (list N) (list N) ->
                CompletedProcess * gmap (list N) (list N).

(** [subprocess.run(cmd, text=True, capture_output=True)]: returns once
    the child has finished. *)
Definition subprocess_run (cmd : list str) : Py CompletedProcess :=
  fun w =>
    let '(p, fs) := exec cmd (files w) in
    (Return p, record (Run cmd p) (set_files fs w)).

End External.

End Runtime.

(** ** The script *)

Module ApplyPatch.
Import Text Runtime.

Section Script.

Variable exec : list str -> gmap (list N) (list N) ->
                CompletedProcess * gmap (list N) (list N).

(** [def run(cmd)]. *)
Definition run (cmd : list str) : Py CompletedProcess :=
  p ← subprocess_run exec cmd;
  when (negb (returncode p =? 0)%Z)
    (stderr_write (stdout p);;
     stderr_write (stderr p);;
     sys_exit (returncode p));;
  mret p.

Definition usage : str :=
  lit "No patch text on stdin. Paste diff and end with Ctrl-D.".

Definition tmp_path : str := lit "/tmp/tiara_patch.patch".

(** [def main()]. *)
Definition main : Py unit :=
  patch_text ← stdin_read;
  when (negb (truthy (strip patch_text)))
    (print_err usage;;
     sys_exit 1);;
  let patch_path := MkPath tmp_path in
  write_text patch_path patch_text;;
  run [lit "git"; lit "apply"; lit "--check"; path_str patch_path];;
  run [lit "git"; lit "apply"; path_str patch_path];;
  print (lit "Applied patch: " ++ path_str patch_path).

(** [main] in two halves, to speak of the moment between the write and
    the first call of git: [store_patch] is the body of [main] up to the
    write, returning the path it wrote to, and [apply_stored] is the rest.
    [main_halves] below shows that [main] is the one followed by the
    other. *)
Definition store_patch : Py Path :=
  patch_text ← stdin_read;
  when (negb (truthy (strip patch_text)))
    (print_err usage;;
     sys_exit 1);;
  let patch_path := MkPath tmp_path in
  write_text patch_path patch_text;;
  mret patch_path.

Definition apply_stored (patch_path : Path) : Py unit :=
  run [lit "git"; lit "apply"; lit "--check"; path_str patch_path];;
  run [lit "git"; lit "apply"; path_str patch_path];;
  print (lit "Applied patch: " ++ path_str patch_path).

End Script.

(** The two command lines and the confirmation, for reference in the
    statements below. *)
Definition check_cmd : list str :=
  [lit "git"; lit "apply"; lit "--check"; tmp_path].
Definition apply_cmd : list str :=
  [lit "git"; lit "apply"; tmp_path].
Definition confirmation : str :=
  lit "Applied patch: " ++ tmp_path ++ newline.

End ApplyPatch.

(** ** The contract *)

Module Spec.
Import Text Runtime ApplyPatch.

Section Flow.

Variable exec : list str -> gmap (list N) (list N) ->
                CompletedProcess * gmap (list N) (list N).

(** The flow of the patch applier as its contract words it: from a world
    [w], the ways the process can end and the world it leaves behind.
    There is one ending more than the contract lists, [Flow_unwritable],
    for a text that UTF-8 cannot carry.  [main_flow] below shows that
    [main] follows this flow. *)
Inductive Flow (w : World) : Outcome unit -> World -> Prop :=
| Flow_usage :
    forallb isspace (sys_stdin w) = true ->
    Flow w (SystemExit 1)
      {| sys_stdin := []; sys_stdout := sys_stdout w;
         sys_stderr := sys_stderr w ++ usage ++ newline;
         files := files w;
         trace := trace w ++ [Read] |}
| Flow_unwritable :
    forallb isspace (sys_stdin w) = false ->
    utf8_encode (sys_stdin w) = None ->
    Flow w (Raise UnicodeEncodeError)
      {| sys_stdin := []; sys_stdout := sys_stdout w;
         sys_stderr := sys_stderr w;
         files := <[tmp_path := []]> (files w);
         trace := trace w ++ [Read; Write tmp_path (sys_stdin w)] |}
| Flow_rejected bs p fs :
    forallb isspace (sys_stdin w) = false ->
    utf8_encode (sys_stdin w) = Some bs ->
    exec check_cmd (<[tmp_path := bs]> (files w)) = (p, fs) ->
    returncode p ≠ 0%Z ->
    Flow w (SystemExit (returncode p))
      {| sys_stdin := []; sys_stdout := sys_stdout w;
         sys_stderr := sys_stderr w ++ stdout p ++ stderr p;
         files := fs;
         trace := trace w ++ [Read; Write tmp_path (sys_stdin w);
                              Run check_cmd p] |}
| Flow_apply_failed bs p fs p' fs' :
    forallb isspace (sys_stdin w) = false ->
    utf8_encode (sys_stdin w) = Some bs ->
    exec check_cmd (<[tmp_path := bs]> (files w)) = (p, fs) ->
    returncode p = 0%Z ->
    exec apply_cmd fs = (p', fs') ->
    returncode p' ≠ 0%Z ->
    Flow w (SystemExit (returncode p'))
      {| sys_stdin := []; sys_stdout := sys_stdout w;
         sys_stderr := sys_stderr w ++ stdout p' ++ stderr p';
         files := fs';
         trace := trace w ++ [Read; Write tmp_path (sys_stdin w);
                              Run check_cmd p; Run apply_cmd p'] |}
| Flow_applied bs p fs p' fs' :
    forallb isspace (sys_stdin w) = false ->
    utf8_encode (sys_stdin w) = Some bs ->
    exec check_cmd (<[tmp_path := bs]> (files w)) = (p, fs) ->
    returncode p = 0%Z ->
    exec apply_cmd fs = (p', fs') ->
    returncode p' = 0%Z ->
    Flow w (Return tt)
      {| sys_stdin := []; sys_stdout := sys_stdout w ++ confirmation;
         sys_stderr := sys_stderr w;
         files := fs';
         trace := trace w ++ [Read; Write tmp_path (sys_stdin w);
                              Run check_cmd p; Run apply_cmd p'] |}.

End Flow.

(** The path a step names: the file written, or the last argument of the
    command run. *)
Definition event_path (e : Event) : option str :=
  match e with
  | Read => None
  | Write path _ => Some path
  | Run cmd _ => last cmd
  end.

End Spec.

(** ** Auxiliary definitions for the proofs and the examples *)

(** A decidable property of the numbers below a bound, checked by running
    it on each of them. *)
Fixpoint below (f : N -> bool) (n : nat) : bool :=
  match n with
  | O => true
  | S k => f (N.of_nat k) && below f k
  end.

Module Examples.
Import Text Runtime ApplyPatch.

(** A fresh machine with the given text waiting on standard input. *)
Definition fresh (input : str) : World :=
  {| sys_stdin := input; sys_stdout := []; sys_stderr := [];
     files := ∅; trace := [] |}.

(** Three results a git process can come back with. *)
Definition acceptance : CompletedProcess :=
  {| returncode := 0; stdout := []; stderr := [] |}.
Definition rejection : CompletedProcess :=
  {| returncode := 128; stdout := lit "checking";
     stderr := lit "error: corrupt patch" |}.


(** A git that accepts everything and touches no file. *)
Definition git_accepts (cmd : list str) (fs : gmap (list N) (list N))
  : CompletedProcess * gmap (list N) (list N) :=
  (acceptance, fs).

(** A git that rejects everything with status 128. *)
Definition git_rejects (cmd : list str) (fs : gmap (list N) (list N))
  : CompletedProcess * gmap (list N) (list N) :=
  (rejection, fs).




(** A small patch text with white space at both ends. *)
Definition sample : str := lit " +x ".

(** A text of white space only: space, tab, line feed, ideographic
    space. *)
Definition blank_sample : str := [0x20; 0x09; 0x0A; 0x3000].

(** Another file of the machine, and a machine that holds it beside a
    patch an earlier run left behind. *)
Definition other_path : str := lit "README".

Definition stocked : World :=
  {| sys_stdin := sample; sys_stdout := []; sys_stderr := [];
     files := <[other_path := lit "hello"]> (<[tmp_path := lit "old"]> ∅);
     trace := [] |}.

End Examples.

(** ** Facts about text *)

Section TextFacts.
Import Text.

Ltac nlia := zify; Z.to_euclidean_division_equations; lia.

Lemma below_sound f n x :
  below f n = true -> x < N.of_nat n -> f x = true.
Proof.
  induction n as [|k IH]; simpl; intros Hb Hx; [lia|].
  apply andb_prop in Hb as [Hk Hb].
  destruct (N.eq_dec x (N.of_nat k)) as [->|Hne]; [exact Hk|].
  apply IH; [exact Hb|lia].
Qed.

Lemma lor_low h l n : l < 2 ^ n -> N.lor (N.shiftl h n) l = h * 2 ^ n + l.
Proof.
  intros Hl. rewrite N.shiftl_mul_pow2.
  assert (Hd : N.land (h * 2 ^ n) l = 0).
  { apply N.bits_inj. intros i. rewrite N.land_spec, N.bits_0.
    destruct (N.lt_ge_cases i n) as [Hi|Hi].
    - now rewrite N.mul_pow2_bits_low.
    - rewrite <- (N.mod_small l (2 ^ n)) by exact Hl.
      rewrite N.mod_pow2_bits_high by exact Hi. apply andb_false_r. }
  now rewrite (N.add_nocarry_lxor _ _ Hd), (N.lxor_lor _ _ Hd).
Qed.

Lemma join_spec hi lo : lo < 64 -> join hi lo = hi * 64 + lo.
Proof. intros H. unfold join. now rewrite (lor_low hi lo 6). Qed.

Lemma low6_spec x : low6 x = x mod 64.
Proof. unfold low6. change 0x3F with (N.ones 6). now rewrite N.land_ones. Qed.

Lemma cont_spec x :
  is_cont (cont x) = true /\ low6 (cont x) = x mod 64 /\ cont x < 256.
Proof.
  unfold cont. fold (low6 x). rewrite low6_spec.
  assert (Hm : x mod 64 < 64) by (apply N.mod_lt; lia).
  generalize dependent (x mod 64). intros m Hm.
  pose proof (below_sound
    (fun m => is_cont (N.lor 0x80 m) && (low6 (N.lor 0x80 m) =? m)
              && (N.lor 0x80 m <? 256)) 64 m eq_refl Hm) as H.
  simpl in H. apply andb_prop in H as [H H3]. apply andb_prop in H as [H1 H2].
  apply N.eqb_eq in H2. apply N.ltb_lt in H3. auto.
Qed.

Lemma lead_spec k n h :
  h < 2 ^ n ->
  N.lor (N.shiftl k n) h = k * 2 ^ n + h /\
  N.land (N.lor (N.shiftl k n) h) (N.ones n) = h.
Proof.
  intros Hh. rewrite lor_low by exact Hh. split; [reflexivity|].
  rewrite N.land_ones.
  rewrite N.add_comm, N.Div0.mod_add. now apply N.mod_small.
Qed.

Lemma shiftr6 c : N.shiftr c 6 = c / 64.
Proof. now rewrite N.shiftr_div_pow2. Qed.
Lemma shiftr12 c : N.shiftr c 12 = c / 4096.
Proof. now rewrite N.shiftr_div_pow2. Qed.
Lemma shiftr18 c : N.shiftr c 18 = c / 262144.
Proof. now rewrite N.shiftr_div_pow2. Qed.

Ltac cmp :=
  repeat match goal with
  | |- context [?a <? ?b] => destruct (N.ltb_spec a b); try nlia
  | |- context [?a <=? ?b] => destruct (N.leb_spec a b); try nlia
  end.

Lemma decode_encode_cp c bs rest :
  encode_cp c = Some bs ->
  utf8_decode (bs ++ rest) = cons c <$> utf8_decode rest.
Proof.
  unfold encode_cp.
  destruct (N.ltb_spec c 0x80) as [H1|H1].
  { intros [= <-]. simpl. destruct (N.ltb_spec c 0x80); [reflexivity|lia]. }
  destruct (N.ltb_spec c 0x800) as [H2|H2].
  { intros [= <-].
    destruct (cont_spec c) as (Hc & Hl & _).
    destruct (lead_spec 6 5 (N.shiftr c 6)) as [Hb Hm];
      [rewrite shiftr6; nlia|].
    change (N.shiftl 6 5) with 0xC0 in *. change (N.ones 5) with 0x1F in *.
    rewrite shiftr6 in *.
    cbn [app utf8_decode]. rewrite Hm, Hl, Hc, Hb.
    rewrite join_spec by nlia.
    replace (c / 64 * 64 + c mod 64) with c by nlia.
    cbn [andb]. cmp. reflexivity. }
  destruct (is_surrogate c) eqn:Hs; [discriminate|].
  destruct (N.ltb_spec c 0x10000) as [H3|H3].
  { intros [= <-].
    destruct (cont_spec c) as (Hc & Hl & _).
    destruct (cont_spec (N.shiftr c 6)) as (Hc' & Hl' & _).
    destruct (lead_spec 14 4 (N.shiftr c 12)) as [Hb Hm];
      [rewrite shiftr12; nlia|].
    change (N.shiftl 14 4) with 0xE0 in *. change (N.ones 4) with 0x0F in *.
    rewrite shiftr6, shiftr12 in *.
    cbn [app utf8_decode]. rewrite Hm, Hl, Hc, Hl', Hc', Hb.
    rewrite !join_spec by nlia.
    replace ((c / 4096 * 64 + (c / 64) mod 64) * 64 + c mod 64) with c by nlia.
    rewrite Hs. cbn [andb negb]. cmp. reflexivity. }
  destruct (N.leb_spec c 0x10FFFF) as [H4|H4]; [|discriminate].
  intros [= <-].
  destruct (cont_spec c) as (Hc & Hl & _).
  destruct (cont_spec (N.shiftr c 6)) as (Hc' & Hl' & _).
  destruct (cont_spec (N.shiftr c 12)) as (Hc'' & Hl'' & _).
  destruct (lead_spec 30 3 (N.shiftr c 18)) as [Hb Hm];
    [rewrite shiftr18; nlia|].
  change (N.shiftl 30 3) with 0xF0 in *. change (N.ones 3) with 0x07 in *.
  rewrite shiftr6, shiftr12, shiftr18 in *.
  cbn [app utf8_decode]. rewrite Hm, Hl, Hc, Hl', Hc', Hl'', Hc'', Hb.
  rewrite !join_spec by nlia.
  replace (((c / 262144 * 64 + (c / 4096) mod 64) * 64 + (c / 64) mod 64) * 64
           + c mod 64) with c by nlia.
  cbn [andb]. cmp. reflexivity.
Qed.

Lemma utf8_roundtrip (s : list N) : forall bs,
  utf8_encode s = Some bs -> utf8_decode bs = Some s.
Proof.
  induction s as [|c r IH]; simpl; intros bs.
  - now intros [= <-].
  - destruct (encode_cp c) as [cs|] eqn:Hc; [|discriminate].
    destruct (utf8_encode r) as [rest|]; [|discriminate].
    intros [= <-]. rewrite (decode_encode_cp _ _ _ Hc), (IH rest eq_refl).
    reflexivity.
Qed.

Lemma utf8_encode_inj (s1 s2 : list N) bs :
  utf8_encode s1 = Some bs -> utf8_encode s2 = Some bs -> s1 = s2.
Proof.
  intros H1 H2. apply utf8_roundtrip in H1, H2. congruence.
Qed.

Lemma encode_cp_scalar c : is_Some (encode_cp c) <-> scalar c.
Proof.
  unfold encode_cp, scalar, is_surrogate. split.
  - intros [bs H]. revert H.
    repeat match goal with
    | |- context [?a <? ?b] => destruct (N.ltb_spec a b)
    | |- context [?a <=? ?b] => destruct (N.leb_spec a b)
    end; simpl; intros; try discriminate; split; (lia || reflexivity).
  - intros [Hr Hs]. revert Hs.
    repeat match goal with
    | |- context [?a <? ?b] => destruct (N.ltb_spec a b)
    | |- context [?a <=? ?b] => destruct (N.leb_spec a b)
    end; simpl; intros; try discriminate; try lia; eauto.
Qed.

Lemma utf8_encode_scalar (s : list N) :
  is_Some (utf8_encode s) <-> Forall scalar s.
Proof.
  induction s as [|c r IH]; simpl.
  - split; [constructor | eauto].
  - rewrite Forall_cons, <- IH, <- encode_cp_scalar.
    unfold is_Some.
    destruct (encode_cp c), (utf8_encode r); split;
      [ eauto | eauto | intros [? [=]] | intros [_ [? [=]]]
      | intros [? [=]] | intros [[? [=]] _]
      | intros [? [=]] | intros [[? [=]] _] ].
Qed.

(** What [utf8_encode] produces are octets. *)
Lemma encode_cp_octets c bs :
  encode_cp c = Some bs -> Forall (fun b => b < 256) bs.
Proof.
  unfold encode_cp.
  destruct (N.ltb_spec c 0x80) as [H1|H1].
  { intros [= <-]. repeat constructor. lia. }
  destruct (N.ltb_spec c 0x800) as [H2|H2].
  { intros [= <-].
    destruct (lead_spec 6 5 (N.shiftr c 6)) as [Hb _];
      [rewrite shiftr6; nlia|].
    change (N.shiftl 6 5) with 0xC0 in Hb. rewrite Hb, shiftr6.
    repeat constructor; [nlia | apply cont_spec]. }
  destruct (is_surrogate c); [discriminate|].
  destruct (N.ltb_spec c 0x10000) as [H3|H3].
  { intros [= <-].
    destruct (lead_spec 14 4 (N.shiftr c 12)) as [Hb _];
      [rewrite shiftr12; nlia|].
    change (N.shiftl 14 4) with 0xE0 in Hb. rewrite Hb, shiftr12.
    repeat constructor; [nlia | apply cont_spec ..]. }
  destruct (N.leb_spec c 0x10FFFF) as [H4|H4]; [|discriminate].
  intros [= <-].
  destruct (lead_spec 30 3 (N.shiftr c 18)) as [Hb _];
    [rewrite shiftr18; nlia|].
  change (N.shiftl 30 3) with 0xF0 in Hb. rewrite Hb, shiftr18.
  repeat constructor; [nlia | apply cont_spec ..].
Qed.

Lemma utf8_encode_octets (s : list N) : forall bs,
  utf8_encode s = Some bs -> Forall (fun b => b < 256) bs.
Proof.
  induction s as [|c r IH]; simpl; intros bs.
  - intros [= <-]. constructor.
  - destruct (encode_cp c) as [cs|] eqn:Hc; [|discriminate].
    destruct (utf8_encode r) as [rest|]; [|discriminate].
    intros [= <-]. apply Forall_app. split.
    + exact (encode_cp_octets c cs Hc).
    + now apply IH.
Qed.

Lemma lstrip_split (s : list N) :
  exists pre, s = pre ++ lstrip s /\ forallb isspace pre = true.
Proof.
  induction s as [|c r (pre & Hr & Hp)]; simpl.
  - now exists [].
  - destruct (isspace c) eqn:Hc.
    + exists (c :: pre). simpl. rewrite Hc, Hp. split; [now f_equal|reflexivity].
    + now exists [].
Qed.

Lemma lstrip_head (s : list N) c r : lstrip s = c :: r -> isspace c = false.
Proof.
  induction s as [|d t IH]; simpl; [discriminate|].
  destruct (isspace d) eqn:Hd; [exact IH|]. now intros [= <- _].
Qed.

Lemma lstrip_nil (s : list N) : lstrip s = [] <-> forallb isspace s = true.
Proof.
  induction s as [|c r IH]; simpl; [tauto|].
  destruct (isspace c); simpl; [exact IH|]. split; discriminate.
Qed.

Lemma forallb_rev (f : N -> bool) (s : list N) :
  forallb f (rev s) = forallb f s.
Proof.
  induction s as [|c r IH]; simpl; [reflexivity|].
  rewrite forallb_app, IH. simpl. rewrite andb_true_r. apply andb_comm.
Qed.

(** [strip] removes a run of white space at each end and nothing else. *)
Lemma strip_split (s : list N) :
  exists pre post,
    s = pre ++ strip s ++ post /\
    forallb isspace pre = true /\ forallb isspace post = true.
Proof.
  destruct (lstrip_split s) as (pre & Hs & Hpre).
  destruct (lstrip_split (rev (lstrip s))) as (q & Hq & Hpost).
  exists pre, (rev q). unfold strip, rstrip.
  rewrite forallb_rev. split; [|now split].
  rewrite <- rev_app_distr, <- Hq, rev_involutive. exact Hs.
Qed.

Lemma strip_blank (s : list N) :
  strip s = [] <-> forallb isspace s = true.
Proof.
  split.
  - intros H. destruct (strip_split s) as (pre & post & Hs & Hp & Hq).
    rewrite H in Hs. rewrite Hs, forallb_app. simpl. now rewrite Hp, Hq.
  - intros H. unfold strip, rstrip.
    apply lstrip_nil in H. now rewrite H.
Qed.

Lemma truthy_strip (s : list N) :
  truthy (strip s) = negb (forallb isspace s).
Proof.
  destruct (forallb isspace s) eqn:H.
  - apply strip_blank in H. now rewrite H.
  - destruct (strip s) eqn:E; [|reflexivity].
    apply strip_blank in E. congruence.
Qed.

Lemma strip_head (s : list N) c r : strip s = c :: r -> isspace c = false.
Proof.
  unfold strip, rstrip. intros H.
  destruct (lstrip s) as [|d t] eqn:E; [discriminate|].
  pose proof (lstrip_head _ _ _ E) as Hd.
  destruct (lstrip_split (rev (d :: t))) as (q & Hq & Hsp).
  apply (f_equal (@rev N)) in Hq. rewrite rev_involutive, rev_app_distr, H in Hq.
  injection Hq as -> _. exact Hd.
Qed.

Lemma strip_last (s : list N) r c : strip s = r ++ [c] -> isspace c = false.
Proof.
  unfold strip, rstrip. intros H.
  apply (f_equal (@rev N)) in H. rewrite rev_involutive, rev_app_distr in H.
  simpl in H. exact (lstrip_head _ _ _ H).
Qed.

(** Plain ASCII text is its own encoding. *)
Lemma utf8_encode_ascii (s : list N) :
  Forall (fun c => c < 0x80) s -> utf8_encode s = Some s.
Proof.
  induction 1 as [|c r Hc _ IH]; simpl; [reflexivity|].
  unfold encode_cp. destruct (N.ltb_spec c 0x80); [|lia].
  now rewrite IH.
Qed.

(** A code point takes between one and four octets. *)
Lemma encode_cp_length c bs :
  encode_cp c = Some bs -> (1 <= length bs <= 4)%nat.
Proof.
  unfold encode_cp.
  repeat match goal with
  | |- context [if ?b then _ else _] => destruct b
  end; intros [= <-]; simpl; lia.
Qed.

Lemma utf8_encode_length (s : list N) : forall bs,
  utf8_encode s = Some bs ->
  (length s <= length bs <= 4 * length s)%nat.
Proof.
  induction s as [|c r IH]; simpl; intros bs.
  - intros [= <-]. simpl. lia.
  - destruct (encode_cp c) as [cs|] eqn:Hc; [|discriminate].
    destruct (utf8_encode r) as [rest|]; [|discriminate].
    intros [= <-]. rewrite length_app.
    pose proof (encode_cp_length c cs Hc). pose proof (IH rest eq_refl). lia.
Qed.

End TextFacts.

(** ** Facts about the script *)

Section ScriptFacts.
Import Text Runtime ApplyPatch Spec.

Variable exec : list str -> gmap (list N) (list N) ->
                CompletedProcess * gmap (list N) (list N).

Ltac py_unfold :=
  unfold main, store_patch, apply_stored, run, when, subprocess_run,
    write_text, stdin_read, print, print_err, stderr_write, stdout_write,
    sys_exit, raise, mbind, mret, Py_bind, Py_ret, bind, ret.

Ltac py_step := cbn -[lit usage tmp_path newline insert].

Lemma world_eq w1 w2 :
  sys_stdin w1 = sys_stdin w2 -> sys_stdout w1 = sys_stdout w2 ->
  sys_stderr w1 = sys_stderr w2 -> files w1 = files w2 ->
  trace w1 = trace w2 -> w1 = w2.
Proof. destruct w1, w2; cbn; congruence. Qed.

Ltac same_world :=
  apply world_eq;
  cbn [sys_stdin sys_stdout sys_stderr files trace
       set_stdin set_stdout set_stderr set_files record];
  rewrite <- ?app_assoc; reflexivity.

Lemma main_halves w :
  main exec w = (store_patch ≫= apply_stored exec) w.
Proof.
  py_unfold. py_step.
  destruct (truthy (strip (sys_stdin w))); py_step; [|reflexivity].
  destruct (utf8_encode (sys_stdin w)); reflexivity.
Qed.

Lemma flow_eq w o w1 w2 : w1 = w2 -> Flow exec w o w1 -> Flow exec w o w2.
Proof. now intros ->. Qed.

(** [main] follows the flow of the contract. *)
Lemma main_flow w : Flow exec w (main exec w).1 (main exec w).2.
Proof.
  py_unfold. py_step. rewrite truthy_strip.
  destruct (forallb isspace (sys_stdin w)) eqn:Hb; py_step.
  { eapply flow_eq; [|now apply Flow_usage]. same_world. }
  destruct (utf8_encode (sys_stdin w)) as [bs|] eqn:He; py_step.
  2:{ eapply flow_eq; [|now apply Flow_unwritable]. same_world. }
  fold check_cmd apply_cmd.
  destruct (exec check_cmd _) as [p fs] eqn:H1. py_step.
  destruct (Z.eqb_spec (returncode p) 0) as [Hp|Hp]; py_step.
  2:{ eapply flow_eq; [|now apply (Flow_rejected exec w bs p fs)].
      same_world. }
  destruct (exec apply_cmd fs) as [p' fs'] eqn:H2. py_step.
  destruct (Z.eqb_spec (returncode p') 0) as [Hp'|Hp']; py_step.
  2:{ eapply flow_eq; [|now apply (Flow_apply_failed exec w bs p fs p' fs')].
      same_world. }
  eapply flow_eq; [|now apply (Flow_applied exec w bs p fs p' fs')].
  unfold confirmation. same_world.
Qed.

Lemma store_patch_cases w :
  match store_patch w with
  | (Return path, w1) =>
      exists bs, forallb isspace (sys_stdin w) = false /\
        utf8_encode (sys_stdin w) = Some bs /\
        path = MkPath tmp_path /\
        files w1 = <[tmp_path := bs]> (files w) /\
        trace w1 = trace w ++ [Read; Write tmp_path (sys_stdin w)]
  | (SystemExit c, w1) =>
      forallb isspace (sys_stdin w) = true /\
      files w1 = files w /\ trace w1 = trace w ++ [Read]
  | (Raise e, w1) => utf8_encode (sys_stdin w) = None
  end.
Proof.
  py_unfold. py_step. rewrite truthy_strip.
  destruct (forallb isspace (sys_stdin w)) eqn:Hb; py_step; [auto|].
  destruct (utf8_encode (sys_stdin w)) as [bs|] eqn:He; py_step;
    [|reflexivity].
  exists bs. rewrite <- app_assoc. auto.
Qed.

Lemma forallb_Forall (s : list N) :
  forallb isspace s = true -> Forall (fun c => isspace c = true) s.
Proof.
  induction s as [|c r IH]; simpl; [constructor|].
  intros [Hc Hr]%andb_prop. apply List.Forall_cons; auto.
Qed.

Lemma unencodable_not_scalar (s : list N) :
  utf8_encode s = None -> ~ Forall scalar s.
Proof.
  intros He [bs Hs]%utf8_encode_scalar. congruence.
Qed.

Lemma blank_forallb (s : list N) :
  s = [] \/ Forall (fun c => isspace c = true) s ->
  forallb isspace s = true.
Proof.
  intros [->|H]; [reflexivity|].
  induction H as [|c r Hc _ IH]; simpl; [reflexivity|]. now rewrite Hc.
Qed.

Lemma not_blank_forallb (s : list N) :
  forallb isspace s = false <-> ~ Forall (fun c => isspace c = true) s.
Proof.
  split.
  - intros Hf H. rewrite (blank_forallb s (or_intror H)) in Hf. discriminate.
  - intros H. destruct (forallb isspace s) eqn:E; [|reflexivity].
    destruct H. now apply forallb_Forall.
Qed.

Lemma cmds_differ : check_cmd ≠ apply_cmd.
Proof. intros H. apply (f_equal (@length _)) in H. discriminate H. Qed.

Lemma steps_app w w' evs : trace w' = trace w ++ evs -> steps w w' = evs.
Proof. unfold steps. intros ->. apply drop_app_length. Qed.

(** The runs of [main], case by case, with the steps taken spelled out. *)
Ltac runs w :=
  let F := fresh "F" in
  pose proof (main_flow w) as F;
  destruct (main exec w) as [?o ?w'];
  cbn [fst snd] in *;
  destruct F;
  repeat match goal with
  | |- context [steps w ?x] =>
      rewrite (steps_app w x _ eq_refl)
  | H : context [steps w ?x] |- _ =>
      rewrite (steps_app w x _ eq_refl) in H
  end;
  cbn [sys_stdin sys_stdout sys_stderr files trace exit_status] in *.

Lemma Run_inj c p c' p' : Run c p = Run c' p' -> c = c' /\ p = p'.
Proof. now intros [= -> ->]. Qed.

Lemma Write_inj a t a' t' : Write a t = Write a' t' -> a = a' /\ t = t'.
Proof. now intros [= -> ->]. Qed.

(** Membership of a step in a list of steps that is spelled out. *)
Ltac in_steps :=
  repeat match goal with
  | H : In _ (_ :: _) |- _ => destruct H as [?H|?H]
  | H : In _ [] |- _ => destruct H
  | H : Read = _ |- _ => discriminate H
  | H : _ = Read |- _ => discriminate H
  | H : Write _ _ = Run _ _ |- _ => discriminate H
  | H : Run _ _ = Write _ _ |- _ => discriminate H
  | H : Run _ _ = Run _ _ |- _ => apply Run_inj in H as [? ?]
  | H : Write _ _ = Write _ _ |- _ => apply Write_inj in H as [? ?]
  | H : check_cmd = apply_cmd |- _ => destruct (cmds_differ H)
  | H : apply_cmd = check_cmd |- _ => destruct (cmds_differ (eq_sym H))
  end; subst.

(** C3.  On input that is empty or made of white space only, the script
    writes the line ["No patch text on stdin. Paste diff and end with
    Ctrl-D."] to standard error and exits with status 1, a non-zero
    status, having taken no step but the read: it starts no external
    program. *)
Theorem blank_input_is_a_usage_error w :
  sys_stdin w = [] \/ Forall (fun c => isspace c = true) (sys_stdin w) ->
  (main exec w).1 = SystemExit 1 /\
  exit_status (main exec w).1 ≠ 0%Z /\
  process_status (main exec w).1 = 1%Z /\
  sys_stderr (main exec w).2 =
    sys_stderr w
    ++ lit "No patch text on stdin. Paste diff and end with Ctrl-D."
    ++ [0x0A] /\
  sys_stderr (main exec w).2 = sys_stderr w ++ usage ++ newline /\
  sys_stdout (main exec w).2 = sys_stdout w /\
  steps w (main exec w).2 = [Read] /\
  (forall cmd p, ~ In (Run cmd p) (steps w (main exec w).2)).
Proof.
  intros Hb%blank_forallb. runs w; try congruence.
  repeat split; try reflexivity; try discriminate.
  intros cmd p Hrun. in_steps.
Qed.

(** C8.  On input that is empty or made of white space only, the script
    exits before the write: it takes no write step and leaves the file
    system as it found it. *)
Theorem blank_input_leaves_files_alone w :
  sys_stdin w = [] \/ Forall (fun c => isspace c = true) (sys_stdin w) ->
  files (main exec w).2 = files w /\
  (forall path text, ~ In (Write path text) (steps w (main exec w).2)).
Proof.
  intros Hb%blank_forallb. runs w; try congruence.
  split; [reflexivity|]. intros path text Hw. in_steps.
Qed.





Lemma read_back_written path w1 (T bs : list N) :
  utf8_encode T = Some bs ->
  files w1 !! path_str path = Some bs ->
  read_back path w1 = Some T.
Proof.
  intros He Hf. unfold read_back. rewrite Hf. cbn.
  exact (utf8_roundtrip T bs He).
Qed.

(** C1.  For non-empty input [T], once the script has written [T] to the
    temporary path, the file holds the UTF-8 octets of [T] and reading it
    back yields [T] itself.  The script gets that far unless [T] is white
    space throughout (the usage error) or holds a code point that UTF-8
    cannot carry (the write raises). *)
Theorem persisted_copy_reads_back w :
  sys_stdin w ≠ [] ->
  match store_patch w with
  | (Return path, w1) =>
      path_str path = lit "/tmp/tiara_patch.patch" /\
      files w1 !! path_str path = utf8_encode (sys_stdin w) /\
      read_back path w1 = Some (sys_stdin w) /\
      main exec w = apply_stored exec path w1
  | (SystemExit _, _) => Forall (fun c => isspace c = true) (sys_stdin w)
  | (Raise _, _) => ~ Forall scalar (sys_stdin w)
  end.
Proof.
  intros _. pose proof (store_patch_cases w) as C.
  pose proof (main_halves w) as M. unfold mbind, Py_bind, bind in M.
  destruct (store_patch w) as [[path|c|e] w1].
  - destruct C as (bs & _ & He & -> & Hf & _).
    assert (Hl : files w1 !! tmp_path = Some bs)
      by (rewrite Hf; apply lookup_insert_eq).
    repeat split.
    + now rewrite He.
    + exact (read_back_written (MkPath tmp_path) w1 _ bs He Hl).
    + exact M.
  - now apply forallb_Forall.
  - now apply unencodable_not_scalar.
Qed.

Lemma padded_is_stripped (T : list N) :
  (exists c r, T = c :: r /\ isspace c = true) \/
  (exists r c, T = r ++ [c] /\ isspace c = true) ->
  strip T ≠ T.
Proof.
  intros [(c & r & -> & Hc)|(r & c & -> & Hc)] E.
  - apply strip_head in E. congruence.
  - apply strip_last in E. congruence.
Qed.

(** C10.  For input with white space at its start or at its end, what
    the script writes to the temporary file is the whole input: the file
    reads back as the input, which differs from the stripped text, so the
    stripping serves the emptiness test alone.  The script writes unless
    the input is white space throughout, when it writes nothing, or
    holds a code point that UTF-8 cannot carry. *)
Theorem untrimmed_text_is_persisted w :
  (exists c r, sys_stdin w = c :: r /\ isspace c = true) \/
  (exists r c, sys_stdin w = r ++ [c] /\ isspace c = true) ->
  match store_patch w with
  | (Return path, w1) =>
      steps w w1 = [Read; Write tmp_path (sys_stdin w)] /\
      files w1 !! tmp_path = utf8_encode (sys_stdin w) /\
      read_back path w1 = Some (sys_stdin w) /\
      strip (sys_stdin w) ≠ sys_stdin w /\
      read_back path w1 ≠ Some (strip (sys_stdin w))
  | (SystemExit _, w1) =>
      Forall (fun c => isspace c = true) (sys_stdin w) /\
      steps w w1 = [Read] /\ files w1 = files w
  | (Raise _, _) => ~ Forall scalar (sys_stdin w)
  end.
Proof.
  intros Hp%padded_is_stripped.
  pose proof (store_patch_cases w) as C.
  destruct (store_patch w) as [[path|c|e] w1].
  - destruct C as (bs & _ & He & -> & Hf & Ht).
    assert (Hl : files w1 !! tmp_path = Some bs)
      by (rewrite Hf; apply lookup_insert_eq).
    pose proof (read_back_written (MkPath tmp_path) w1 _ bs He Hl) as Hr.
    repeat split.
    + now apply steps_app.
    + now rewrite He.
    + exact Hr.
    + exact Hp.
    + rewrite Hr. intros [= E]. now apply Hp.
  - destruct C as (Hb & Hf & Ht). repeat split.
    + now apply forallb_Forall.
    + now apply steps_app.
    + exact Hf.
  - now apply unencodable_not_scalar.
Qed.


(** C7.  Whatever the outcome, the script does not delete the temporary
    file: provided the external commands do not remove it, a file that
    was at the temporary path before the run, or that the run wrote, is
    there when the script exits. *)
Theorem patch_file_is_never_deleted w :
  (forall cmd fs,
     is_Some (fs !! tmp_path) -> is_Some ((exec cmd fs).2 !! tmp_path)) ->
  is_Some (files w !! tmp_path) \/
  (exists text, In (Write tmp_path text) (steps w (main exec w).2)) ->
  is_Some (files (main exec w).2 !! tmp_path).
Proof.
  intros Hkeep Hhad.
  assert (Hins : forall bs, is_Some (<[tmp_path := bs]> (files w) !! tmp_path))
    by (intros bs; rewrite lookup_insert_eq; eauto).
  runs w.
  - destruct Hhad as [Hhad|(text & Hin)]; [exact Hhad|]. in_steps.
  - apply Hins.
  - pose proof (Hkeep check_cmd _ (Hins bs)) as K. now rewrite H1 in K.
  - pose proof (Hkeep check_cmd _ (Hins bs)) as K. rewrite H1 in K.
    cbn [snd] in K. apply (Hkeep apply_cmd) in K. now rewrite H3 in K.
  - pose proof (Hkeep check_cmd _ (Hins bs)) as K. rewrite H1 in K.
    cbn [snd] in K. apply (Hkeep apply_cmd) in K. now rewrite H3 in K.
Qed.

(** C9.  The temporary path is the constant ["/tmp/tiara_patch.patch"]:
    it is the last argument of both git command lines, and in every run,
    from every world and with every external tool, it is the path
    written to and the path handed to each command run, the commands
    run being those two command lines. *)
Theorem path_is_constant w :
  tmp_path = lit "/tmp/tiara_patch.patch" /\
  last check_cmd = Some tmp_path /\
  last apply_cmd = Some tmp_path /\
  Forall (fun e => e = Read \/
                   event_path e = Some (lit "/tmp/tiara_patch.patch") /\
                   forall cmd p, e = Run cmd p ->
                     cmd = check_cmd \/ cmd = apply_cmd)
         (steps w (main exec w).2).
Proof.
  repeat (split; [reflexivity|]).
  runs w; repeat (apply List.Forall_cons; [cbn beta|]);
    try apply List.Forall_nil;
    try (now left); right; (split; [reflexivity|]);
    intros cmd q E; try discriminate E;
    apply Run_inj in E as [<- _]; auto.
Qed.

Lemma encodable_iff_scalar (s : list N) :
  utf8_encode s = None <-> ~ Forall scalar s.
Proof.
  rewrite <- utf8_encode_scalar. unfold is_Some.
  destruct (utf8_encode s) as [bs|]; split; try discriminate; eauto.
  - intros H. destruct H. eauto.
  - intros _ [bs [=]].
Qed.

(** X1.  What [run] does with a command that was started and has come
    back, for any command line: it has run the command once; when it
    returns, the process it returns came back with status zero and
    neither stream was written to; when it exits, the exit code is the
    non-zero return code of the process, the captured standard output
    and then the captured standard error were written to the error
    stream, and standard output was not written to. *)
Theorem run_contract cmd w :
  match run exec cmd w with
  | (Return p, w') =>
      returncode p = 0%Z /\
      exec cmd (files w) = (p, files w') /\
      sys_stderr w' = sys_stderr w /\
      sys_stdout w' = sys_stdout w /\
      steps w w' = [Run cmd p]
  | (SystemExit c, w') =>
      c ≠ 0%Z /\
      exists p,
        exec cmd (files w) = (p, files w') /\
        c = returncode p /\
        sys_stderr w' = sys_stderr w ++ stdout p ++ stderr p /\
        sys_stdout w' = sys_stdout w /\
        steps w w' = [Run cmd p]
  | (Raise _, _) => True
  end.
Proof.
  py_unfold. destruct (exec cmd (files w)) as [p fs] eqn:He. py_step.
  destruct (Z.eqb_spec (returncode p) 0) as [Hp|Hp]; py_step.
  - repeat split; auto. now apply steps_app.
  - split; [exact Hp|]. exists p. repeat split; auto.
    + now rewrite <- app_assoc.
    + now apply steps_app.
Qed.


(** X3.  A run writes its confirmation or nothing to standard output: when
    it ends with a non-zero status, standard output is as it was; when
    it ends with status zero, standard output has gained the
    confirmation line and standard error is as it was. *)
Theorem failure_is_silent_on_stdout w :
  (exit_status (main exec w).1 ≠ 0%Z /\
   sys_stdout (main exec w).2 = sys_stdout w) \/
  (exit_status (main exec w).1 = 0%Z /\
   sys_stdout (main exec w).2 = sys_stdout w ++ confirmation /\
   sys_stderr (main exec w).2 = sys_stderr w).
Proof.
  runs w; [left|left|left|left|right]; repeat split; auto; discriminate.
Qed.

(** X5.  The write replaces whatever the temporary file held, and the
    script does not touch the file again: for input that is not blank
    and that UTF-8 can carry, if the external commands leave the file
    alone then at exit it holds the octets of the input and reads back
    as the input, whether the dry run failed, the apply failed or both
    passed. *)
Theorem stored_patch_survives w bs :
  (forall cmd fs, (exec cmd fs).2 !! tmp_path = fs !! tmp_path) ->
  forallb isspace (sys_stdin w) = false ->
  utf8_encode (sys_stdin w) = Some bs ->
  files (main exec w).2 !! tmp_path = Some bs /\
  read_back (MkPath tmp_path) (main exec w).2 = Some (sys_stdin w).
Proof.
  intros Hkeep Hb He.
  assert (Hf : files (main exec w).2 !! tmp_path = Some bs).
  { runs w; try congruence.
    - pose proof (Hkeep check_cmd (<[tmp_path := bs0]> (files w))) as K.
      rewrite H1 in K. cbn [snd] in K.
      rewrite K, lookup_insert_eq. congruence.
    - pose proof (Hkeep check_cmd (<[tmp_path := bs0]> (files w))) as K.
      rewrite H1 in K. cbn [snd] in K.
      pose proof (Hkeep apply_cmd fs) as K'.
      rewrite H3 in K'. cbn [snd] in K'.
      rewrite K', K, lookup_insert_eq. congruence.
    - pose proof (Hkeep check_cmd (<[tmp_path := bs0]> (files w))) as K.
      rewrite H1 in K. cbn [snd] in K.
      pose proof (Hkeep apply_cmd fs) as K'.
      rewrite H3 in K'. cbn [snd] in K'.
      rewrite K', K, lookup_insert_eq. congruence. }
  split; [exact Hf|].
  exact (read_back_written (MkPath tmp_path) _ _ bs He Hf).
Qed.

(** X6.  The script ends in an uncaught [UnicodeEncodeError] exactly when
    its input is not blank and holds a code point that is not a Unicode
    scalar value (a lone surrogate); it has then started no external
    command. *)
Theorem crash_iff_unencodable w :
  ((main exec w).1 = Raise UnicodeEncodeError <->
   ~ Forall (fun c => isspace c = true) (sys_stdin w) /\
   ~ Forall scalar (sys_stdin w)) /\
  ((main exec w).1 = Raise UnicodeEncodeError ->
   forall cmd p, ~ In (Run cmd p) (steps w (main exec w).2)).
Proof.
  rewrite <- not_blank_forallb, <- encodable_iff_scalar.
  runs w; (split; [split; [intros E | intros [Hb He]] | intros E cmd q Hq]);
    try discriminate; try congruence; auto.
  in_steps.
Qed.

(** X7.  The script stops after reading, without writing, exactly when
    every character of its input is white space (which the empty input
    satisfies): input with a single character that is not white space
    goes on to the write. *)
Theorem stops_after_read_iff_blank w :
  steps w (main exec w).2 = [Read] <->
  Forall (fun c => isspace c = true) (sys_stdin w).
Proof.
  split.
  - intros E. apply forallb_Forall. revert E.
    runs w; intros E; try discriminate E. assumption.
  - intros Hb. assert (Hf := blank_forallb _ (or_intror Hb)).
    runs w; congruence.
Qed.

(** X8.  A patch of plain ASCII that is not blank is stored as it is: the
    temporary file then holds, octet for octet, the code points of the
    input. *)
Theorem ascii_patch_stored_verbatim w :
  Forall (fun c => c < 0x80) (sys_stdin w) ->
  ~ Forall (fun c => isspace c = true) (sys_stdin w) ->
  exists w1,
    store_patch w = (Return (MkPath tmp_path), w1) /\
    files w1 !! tmp_path = Some (sys_stdin w).
Proof.
  intros Ha%utf8_encode_ascii Hb%not_blank_forallb.
  pose proof (store_patch_cases w) as C.
  destruct (store_patch w) as [[path|c|e] w1].
  - destruct C as (bs & _ & He & -> & Hf & _).
    exists w1. split; [reflexivity|].
    rewrite Hf, lookup_insert_eq. congruence.
  - destruct C as (Hb' & _). congruence.
  - congruence.
Qed.

(** X9.  The file the script writes holds octets, at least one and at
    most four for each character of the input. *)
Theorem stored_size_is_bounded w path w1 bs :
  store_patch w = (Return path, w1) ->
  files w1 !! tmp_path = Some bs ->
  Forall (fun b => b < 256) bs /\
  (length (sys_stdin w) <= length bs <= 4 * length (sys_stdin w))%nat.
Proof.
  intros Hs Hf. pose proof (store_patch_cases w) as C. rewrite Hs in C.
  destruct C as (bs' & _ & He & _ & Hf' & _).
  rewrite Hf', lookup_insert_eq in Hf. injection Hf as <-.
  split.
  - exact (utf8_encode_octets _ _ He).
  - exact (utf8_encode_length _ _ He).
Qed.

End ScriptFacts.

(** ** The theorems at work on concrete runs *)

Section Witnesses.
Import Text Runtime ApplyPatch Spec Examples.

Lemma sample_is_stored :
  store_patch (fresh sample) =
    (Return (MkPath tmp_path), (store_patch (fresh sample)).2).
Proof. vm_compute. reflexivity. Qed.

Lemma persisted_copy_reads_back_witness :
  sys_stdin (fresh sample) ≠ [] /\
  read_back (MkPath tmp_path) (store_patch (fresh sample)).2 = Some sample.
Proof.
  assert (H1 : sys_stdin (fresh sample) ≠ []) by (vm_compute; discriminate).
  split; [exact H1|].
  pose proof (persisted_copy_reads_back git_accepts (fresh sample) H1) as K.
  rewrite sample_is_stored in K. exact (proj1 (proj2 (proj2 K))).
Defined.

Lemma untrimmed_text_is_persisted_witness :
  ((exists c r, sys_stdin (fresh sample) = c :: r /\ isspace c = true) \/
   (exists r c, sys_stdin (fresh sample) = r ++ [c] /\ isspace c = true)) /\
  read_back (MkPath tmp_path) (store_patch (fresh sample)).2
    ≠ Some (strip sample).
Proof.
  assert (H1 : (exists c r, sys_stdin (fresh sample) = c :: r /\
                            isspace c = true) \/
               (exists r c, sys_stdin (fresh sample) = r ++ [c] /\
                            isspace c = true))
    by (left; exists 0x20, (lit "+x "); split; reflexivity).
  split; [exact H1|].
  pose proof (untrimmed_text_is_persisted (fresh sample) H1) as K.
  rewrite sample_is_stored in K.
  exact (proj2 (proj2 (proj2 (proj2 K)))).
Defined.






Lemma blank_input_is_a_usage_error_witness :
  (sys_stdin (fresh blank_sample) = [] \/
   Forall (fun c => isspace c = true) (sys_stdin (fresh blank_sample))) /\
  (main git_accepts (fresh blank_sample)).1 = SystemExit 1.
Proof.
  assert (H1 : sys_stdin (fresh blank_sample) = [] \/
               Forall (fun c => isspace c = true)
                      (sys_stdin (fresh blank_sample)))
    by (right; repeat apply List.Forall_cons; try apply List.Forall_nil;
        reflexivity).
  split; [exact H1|].
  exact (proj1 (blank_input_is_a_usage_error git_accepts _ H1)).
Defined.

Lemma blank_input_leaves_files_alone_witness :
  (sys_stdin (fresh []) = [] \/
   Forall (fun c => isspace c = true) (sys_stdin (fresh []))) /\
  files (main git_rejects (fresh [])).2 = ∅.
Proof.
  assert (H1 : sys_stdin (fresh []) = [] \/
               Forall (fun c => isspace c = true) (sys_stdin (fresh [])))
    by (left; reflexivity).
  split; [exact H1|].
  exact (proj1 (blank_input_leaves_files_alone git_rejects _ H1)).
Defined.

Lemma patch_file_is_never_deleted_witness :
  (forall cmd fs,
     is_Some (fs !! tmp_path) ->
     is_Some ((git_rejects cmd fs).2 !! tmp_path)) /\
  (exists text,
     In (Write tmp_path text)
        (steps (fresh sample) (main git_rejects (fresh sample)).2)) /\
  is_Some (files (main git_rejects (fresh sample)).2 !! tmp_path).
Proof.
  assert (H1 : forall cmd fs,
     is_Some (fs !! tmp_path) ->
     is_Some ((git_rejects cmd fs).2 !! tmp_path))
    by (intros cmd fs H; exact H).
  assert (H2 : exists text,
     In (Write tmp_path text)
        (steps (fresh sample) (main git_rejects (fresh sample)).2))
    by (exists sample; vm_compute; auto).
  split; [exact H1|]. split; [exact H2|].
  exact (patch_file_is_never_deleted git_rejects _ H1 (or_intror H2)).
Defined.
Lemma stored_patch_survives_witness :
  (forall cmd fs, (git_rejects cmd fs).2 !! tmp_path = fs !! tmp_path) /\
  forallb isspace (sys_stdin stocked) = false /\
  utf8_encode (sys_stdin stocked) = Some sample /\
  read_back (MkPath tmp_path) (main git_rejects stocked).2 = Some sample.
Proof.
  assert (H1 : forall cmd fs,
                 (git_rejects cmd fs).2 !! tmp_path = fs !! tmp_path)
    by (intros cmd fs; reflexivity).
  assert (H2 : forallb isspace (sys_stdin stocked) = false)
    by (vm_compute; reflexivity).
  assert (H3 : utf8_encode (sys_stdin stocked) = Some sample)
    by (vm_compute; reflexivity).
  split; [exact H1|]. split; [exact H2|]. split; [exact H3|].
  exact (proj2 (stored_patch_survives git_rejects stocked sample H1 H2 H3)).
Defined.

Lemma ascii_patch_stored_verbatim_witness :
  Forall (fun c => c < 0x80) (sys_stdin (fresh sample)) /\
  ~ Forall (fun c => isspace c = true) (sys_stdin (fresh sample)) /\
  exists w1,
    store_patch (fresh sample) = (Return (MkPath tmp_path), w1) /\
    files w1 !! tmp_path = Some (sys_stdin (fresh sample)).
Proof.
  assert (H1 : Forall (fun c => c < 0x80) (sys_stdin (fresh sample)))
    by (repeat apply List.Forall_cons; try apply List.Forall_nil;
        reflexivity).
  assert (H2 : ~ Forall (fun c => isspace c = true)
                        (sys_stdin (fresh sample)))
    by (apply not_blank_forallb; vm_compute; reflexivity).
  split; [exact H1|]. split; [exact H2|].
  exact (ascii_patch_stored_verbatim (fresh sample) H1 H2).
Defined.

Lemma stored_size_is_bounded_witness :
  store_patch (fresh sample) =
    (Return (MkPath tmp_path), (store_patch (fresh sample)).2) /\
  files (store_patch (fresh sample)).2 !! tmp_path = Some sample /\
  (length (sys_stdin (fresh sample)) <= length sample
   <= 4 * length (sys_stdin (fresh sample)))%nat.
Proof.
  assert (H2 : files (store_patch (fresh sample)).2 !! tmp_path
               = Some sample) by (vm_compute; reflexivity).
  split; [exact sample_is_stored|]. split; [exact H2|].
  exact (proj2 (stored_size_is_bounded (fresh sample) _ _ sample
                  sample_is_stored H2)).
Defined.

End Witnesses.
